(** * A verification model of img-pdf (src/App.js)

    The program is a single React Native component.  Its only computation is
    in [generatePDF]: every selected image is read as base64, fitted into an
    A4 page of 794x1123 CSS pixels keeping its aspect ratio, centred, and
    emitted as one HTML page; the HTML is printed to a PDF and shared.
    Reordering and removal of the selected images happen in [moveImageUp],
    [moveImageDown] and [removeImage].

    JavaScript numbers are modelled by [number]: finite values are exact
    rationals (the model of the IEEE operations without rounding), and the
    special values Infinity, -Infinity and NaN are kept, since the fitting
    code divides by image dimensions without any check.  Signed zero is not
    modelled: every zero is +0. *)

From Stdlib Require Import QArith Qfield Lqa ZArith String Ascii Permutation FinFun.
From stdpp Require Import base list.
Import ListNotations.

(* ------------------------------------------------------------------ *)
(** ** JavaScript numbers *)

Module JSNum.
Local Open Scope Q_scope.

Inductive number : Type :=
| Fin (q : Q)
| PosInf
| NegInf
| NaN.

(** [a / b] *)
Definition num_div (x y : number) : number :=
  match x, y with
  | NaN, _ | _, NaN => NaN
  | Fin a, Fin b =>
      if Qeq_bool b 0 then
        match Qcompare a 0 with Eq => NaN | Gt => PosInf | Lt => NegInf end
      else Fin (a / b)
  | Fin _, PosInf | Fin _, NegInf => Fin 0
  | PosInf, Fin b => match Qcompare b 0 with Lt => NegInf | _ => PosInf end
  | NegInf, Fin b => match Qcompare b 0 with Lt => PosInf | _ => NegInf end
  | PosInf, PosInf | PosInf, NegInf | NegInf, PosInf | NegInf, NegInf => NaN
  end.

(** [a * b] *)
Definition num_mul (x y : number) : number :=
  match x, y with
  | NaN, _ | _, NaN => NaN
  | Fin a, Fin b => Fin (a * b)
  | Fin a, PosInf | PosInf, Fin a =>
      match Qcompare a 0 with Eq => NaN | Gt => PosInf | Lt => NegInf end
  | Fin a, NegInf | NegInf, Fin a =>
      match Qcompare a 0 with Eq => NaN | Gt => NegInf | Lt => PosInf end
  | PosInf, PosInf | NegInf, NegInf => PosInf
  | PosInf, NegInf | NegInf, PosInf => NegInf
  end.

(** [a - b] *)
Definition num_sub (x y : number) : number :=
  match x, y with
  | NaN, _ | _, NaN => NaN
  | Fin a, Fin b => Fin (a - b)
  | PosInf, PosInf | NegInf, NegInf => NaN
  | PosInf, _ => PosInf
  | NegInf, _ => NegInf
  | Fin _, PosInf => NegInf
  | Fin _, NegInf => PosInf
  end.

(** [a > b]; every comparison with NaN is false. *)
Definition num_gt (x y : number) : bool :=
  match x, y with
  | NaN, _ | _, NaN => false
  | Fin a, Fin b => negb (Qle_bool a b)
  | PosInf, PosInf => false
  | PosInf, _ => true
  | NegInf, _ => false
  | Fin _, PosInf => false
  | Fin _, NegInf => true
  end.

End JSNum.
Import JSNum.

(* ------------------------------------------------------------------ *)
(** ** Geometric fitting (the body of the [imagesWithData.map] callback) *)

Module Fitter.
Local Open Scope Q_scope.

(** [const pageWidth = 794; const pageHeight = 1123;
     const maxImageWidth = pageWidth; const maxImageHeight = pageHeight;] *)
Definition pageWidth : number := Fin 794.
Definition pageHeight : number := Fin 1123.
Definition maxImageWidth : number := pageWidth.
Definition maxImageHeight : number := pageHeight.

Record geometry : Type := mk_geometry {
  imageWidth : number;
  imageHeight : number;
  leftPos : number;
  topPos : number
}.

(** [aspectRatio = img.width / img.height]; width-constrained first, then
    height-constrained when [imageHeight > maxImageHeight]; centring by
    [(pageWidth - imageWidth) / 2] and [(pageHeight - imageHeight) / 2]. *)
Definition fit_image (width height : number) : geometry :=
  let aspectRatio := num_div width height in
  let '(imageWidth, imageHeight) :=
    let imageWidth := maxImageWidth in
    let imageHeight := num_div maxImageWidth aspectRatio in
    if num_gt imageHeight maxImageHeight
    then (num_mul maxImageHeight aspectRatio, maxImageHeight)
    else (imageWidth, imageHeight) in
  let leftPos := num_div (num_sub pageWidth imageWidth) (Fin 2) in
  let topPos := num_div (num_sub pageHeight imageHeight) (Fin 2) in
  mk_geometry imageWidth imageHeight leftPos topPos.

End Fitter.
Import Fitter.

(* ------------------------------------------------------------------ *)
(** ** The image list: [removeImage], [moveImageUp], [moveImageDown] *)

Module Registry.
Section Registry.

(** Elements of the JavaScript array, with the value [undefined] that a
    read past the end returns and that fills the holes of a write past
    the end. *)
Context {A : Type} (undefined : A).

(** [a[i]] *)
Definition array_get (l : list A) (i : nat) : A := default undefined (l !! i).

(** [a[i] = v]: in range the element is replaced; past the end the array
    grows, the holes holding [undefined]. *)
Definition array_set (l : list A) (i : nat) (v : A) : list A :=
  if decide (i < length l) then <[i:=v]> l
  else l ++ replicate (i - length l) undefined ++ [v].

(** [if (index === 0) return;
     [newImages[index - 1], newImages[index]] = [newImages[index], newImages[index - 1]];] *)
Definition moveImageUp (images : list A) (index : nat) : list A :=
  if Nat.eqb index 0 then images
  else
    let newImages := images in
    let t0 := array_get newImages index in
    let t1 := array_get newImages (index - 1) in
    array_set (array_set newImages (index - 1) t0) index t1.

(** [if (index === images.length - 1) return;
     [newImages[index], newImages[index + 1]] = [newImages[index + 1], newImages[index]];]
    The comparison is on JavaScript numbers, where [0 - 1] is [-1]. *)
Definition moveImageDown (images : list A) (index : nat) : list A :=
  if Z.eqb (Z.of_nat index) (Z.of_nat (length images) - 1) then images
  else
    let newImages := images in
    let t0 := array_get newImages (index + 1) in
    let t1 := array_get newImages index in
    array_set (array_set newImages index t0) (index + 1) t1.

(** [prev.filter((img) => img.id !== id)] *)
Definition removeImage (id_of : A -> string) (images : list A) (id : string) : list A :=
  List.filter (fun img => negb (String.eqb (id_of img) id)) images.

End Registry.
End Registry.
Import Registry.

(* ------------------------------------------------------------------ *)
(** ** Text helpers: template literals and [toLowerCase().includes] *)

Module Text.
Local Open Scope string_scope.

(** Decimal rendering of a natural number, as [`${n}`] prints it. *)
Fixpoint digits (fuel n : nat) (acc : string) : string :=
  match fuel with
  | O => acc
  | S fuel' =>
      let acc' := String (ascii_of_nat (48 + n mod 10)) acc in
      if Nat.ltb n 10 then acc' else digits fuel' (n / 10) acc'
  end.

Definition nat_str (n : nat) : string := digits (S n) n "".

Definition ascii_lower (c : ascii) : ascii :=
  let n := nat_of_ascii c in
  if andb (Nat.leb 65 n) (Nat.leb n 90) then ascii_of_nat (n + 32) else c.

(** [s.toLowerCase()] on ASCII text. *)
Fixpoint to_lower (s : string) : string :=
  match s with
  | EmptyString => EmptyString
  | String c s' => String (ascii_lower c) (to_lower s')
  end.

(** [s.includes(sub)] *)
Definition includes (s sub : string) : bool :=
  match index 0 sub s with Some _ => true | None => false end.

End Text.
Import Text.

(* ------------------------------------------------------------------ *)
(** ** The generation pipeline ([generatePDF]) *)

Module Pipeline.
Local Open Scope string_scope.

(** [{ id, uri, width, height }] built in [pickImages]. *)
Record image : Type := mk_image {
  id : string;
  uri : string;
  width : number;
  height : number
}.

(** Outcome of [FileSystem.readAsStringAsync(img.uri, Base64)]. *)
Inductive read_result : Type :=
| ReadOk (base64 : string)
| ReadErr (message : string).

(** [{ ...img, dataUri }] *)
Record image_with_data : Type := mk_image_with_data {
  source : image;
  dataUri : string
}.

Definition mimeType_of (u : string) : string :=
  if includes (to_lower u) ".png" || includes (to_lower u) "png"
  then "image/png" else "image/jpeg".

(** The async callback of [images.map]: its promise fulfils with the
    image and its data URI ([inr]) or rejects with the rethrown error's
    message ([inl]). *)
Definition read_image (reads : nat -> read_result) (index : nat) (img : image)
    : string + image_with_data :=
  match reads index with
  | ReadOk base64 =>
      inr (mk_image_with_data img
             ("data:" ++ mimeType_of (uri img) ++ ";base64," ++ base64))
  | ReadErr msg =>
      inl ("Failed to process image " ++ nat_str (index + 1) ++ ": " ++ msg)
  end.

(** [Promise.all]: the promises settle in the order [ord] (a permutation
    of their indices); the result rejects with the first rejection to
    settle, and otherwise fulfils with every value in list order. *)
Fixpoint first_rejection {X : Type} (ps : list (string + X)) (ord : list nat)
    : option string :=
  match ord with
  | [] => None
  | i :: ord' =>
      match ps !! i with
      | Some (inl e) => Some e
      | _ => first_rejection ps ord'
      end
  end.

Fixpoint values {X : Type} (ps : list (string + X)) : list X :=
  match ps with
  | [] => []
  | inr v :: ps' => v :: values ps'
  | inl _ :: ps' => values ps'
  end.

Definition promise_all {X : Type} (ps : list (string + X)) (ord : list nat)
    : string + list X :=
  match first_rejection ps ord with
  | Some e => inl e
  | None => inr (values ps)
  end.

(** One page [<div>] of the HTML: its image source, the geometry written
    into the [<img>] style, and whether [page-break-after: always] is set. *)
Record page : Type := mk_page {
  page_src : string;
  page_geometry : geometry;
  page_break_after : bool
}.

(** [const imageHTML = imagesWithData.map((img, index) => ...)], one page
    per image (the markup of a page is a function of its [page]); the
    page break test
    [index < imagesWithData.length - 1] is on JavaScript numbers. *)
Definition imageHTML (imagesWithData : list image_with_data) : list page :=
  imap (fun index img =>
          mk_page (dataUri img)
            (fit_image (width (source img)) (height (source img)))
            (Z.ltb (Z.of_nat index) (Z.of_nat (length imagesWithData) - 1)))
       imagesWithData.

(** Where a run of [generatePDF] is suspended. *)
Inductive run_stage : Type :=
| Encoding                      (* await Promise.all(imageDataPromises) *)
| Rendering (html : list page)  (* await Print.printToFileAsync({ html }) *)
| Saving (pdf_uri : string)     (* await savePDFAndroid / savePDFiOS / shareAsync *)
| Succeeded
| Failed (message : string).

Record run : Type := mk_run {
  snapshot : list image;   (* the [images] captured by the closure *)
  stage : run_stage
}.

Record alert : Type := mk_alert { title : string; message : string }.

Record state : Type := mk_state {
  images : list image;
  isGenerating : bool;
  runs : list run;
  alerts : list alert
}.

Definition in_flight (ru : run) : bool :=
  match stage ru with
  | Encoding | Rendering _ | Saving _ => true
  | Succeeded | Failed _ => false
  end.

Definition initial_state : state := mk_state [] false [] [].

(** The synchronous part of [generatePDF], up to its first [await]. *)
Definition generatePDF (st : state) : state :=
  if Nat.eqb (length (images st)) 0 then
    mk_state (images st) (isGenerating st) (runs st)
      (alerts st ++ [mk_alert "No Images"
                       "Please select at least one image to convert to PDF."])
  else
    mk_state (images st) true (runs st ++ [mk_run (images st) Encoding]) (alerts st).

Definition set_stage (st : state) (r : nat) (ru : run) (s : run_stage) : state :=
  mk_state (images st) (isGenerating st)
    (<[r := mk_run (snapshot ru) s]> (runs st)) (alerts st).

(** [catch]: alert the error; [finally]: [setIsGenerating(false)]. *)
Definition fail_run (st : state) (r : nat) (ru : run) (msg : string) : state :=
  mk_state (images st) false
    (<[r := mk_run (snapshot ru) (Failed msg)]> (runs st))
    (alerts st ++ [mk_alert "Error" ("Failed to generate PDF: " ++ msg)]).

Inductive event : Type :=
| PressGenerate                           (* onPress, disabled={isGenerating} *)
| PickImages (assets : list image)        (* pickImages, disabled={isGenerating} *)
| RemoveImage (id : string)               (* removeImage(item.id) *)
| ReadsSettled (r : nat) (ord : list nat) (reads : nat -> read_result)
| PrintSettled (r : nat) (result : string + string)   (* error or PDF uri *)
| ShareSettled (r : nat) (save_error : option string).

Definition step (st : state) (ev : event) : state :=
  match ev with
  | PressGenerate => if isGenerating st then st else generatePDF st
  | PickImages assets =>
      if isGenerating st then st
      else mk_state (images st ++ assets) (isGenerating st) (runs st) (alerts st)
  | RemoveImage k =>
      mk_state (removeImage id (images st) k) (isGenerating st) (runs st) (alerts st)
  | ReadsSettled r ord reads =>
      match runs st !! r with
      | Some ru =>
          match stage ru with
          | Encoding =>
              match promise_all (imap (read_image reads) (snapshot ru)) ord with
              | inl e => fail_run st r ru e
              | inr imagesWithData => set_stage st r ru (Rendering (imageHTML imagesWithData))
              end
          | _ => st
          end
      | None => st
      end
  | PrintSettled r result =>
      match runs st !! r with
      | Some ru =>
          match stage ru, result with
          | Rendering _, inl e => fail_run st r ru e
          | Rendering _, inr pdf => set_stage st r ru (Saving pdf)
          | _, _ => st
          end
      | None => st
      end
  | ShareSettled r save_error =>
      match runs st !! r with
      | Some ru =>
          match stage ru with
          | Saving _ =>
              let saved :=
                match save_error with
                | Some e => [mk_alert "Error" ("Failed to save PDF: " ++ e)]
                | None => []
                end in
              mk_state (images st) false
                (<[r := mk_run (snapshot ru) Succeeded]> (runs st))
                (alerts st ++ saved ++ [mk_alert "Success" "PDF generated successfully!"])
          | _ => st
          end
      | None => st
      end
  end.

(** States reachable from app start by user presses and settled awaits. *)
Inductive reachable : state -> Prop :=
| reachable_init : reachable initial_state
| reachable_step st ev : reachable st -> reachable (step st ev).

End Pipeline.
Import Pipeline.

(* ------------------------------------------------------------------ *)
(** ** Concrete sessions used as test inputs *)

Module Samples.
Local Open Scope string_scope.

Definition photo : image :=
  mk_image "1700000000000-0" "file:///DCIM/photo.jpg" (Fin 800) (Fin 600).

(** An asset whose reported height is 0. *)
Definition flat : image :=
  mk_image "1700000000000-1" "file:///DCIM/flat.png" (Fin 800) (Fin 0).

(** The user picks [imgs] and presses Generate once. *)
Definition generating (imgs : list image) : state :=
  step (step initial_state (PickImages imgs)) PressGenerate.

Definition reads_ok (_ : nat) : read_result := ReadOk "QUFB".

Definition reads_second_fails (i : nat) : read_result :=
  if Nat.eqb i 1 then ReadErr "File not found" else ReadOk "QUFB".

End Samples.

(* ------------------------------------------------------------------ *)
(** ** The re-entrancy invariant *)

(** Every run in flight has raised the flag, and at most one is in flight. *)
Definition flight_inv (g : bool) (rs : list run) : Prop :=
  (forall r ru, rs !! r = Some ru -> in_flight ru = true -> g = true)
  /\ (forall r1 r2 ru1 ru2, rs !! r1 = Some ru1 -> rs !! r2 = Some ru2 ->
        in_flight ru1 = true -> in_flight ru2 = true -> r1 = r2).

(* ------------------------------------------------------------------ *)
(** ** Selecting images: [requestPermissions] and [pickImages] *)

Module Picker.
Local Open Scope string_scope.

Inductive platform : Type := Android | IOS | Web.

(** [requestPermissions]: on a platform other than the web the library
    permission is requested; [status] is what the prompt returns.  The
    result is the returned boolean and the alerts shown. *)
Definition requestPermissions (os : platform) (status : string) : bool * list alert :=
  match os with
  | Web => (true, [])
  | Android | IOS =>
      if String.eqb status "granted" then (true, [])
      else (false, [mk_alert "Permission Required"
                      "Sorry, we need camera roll permissions to select images!"])
  end.

(** An asset of [ImagePicker.launchImageLibraryAsync]'s result. *)
Record picker_asset : Type := mk_asset {
  asset_uri : string;
  asset_width : number;
  asset_height : number
}.

(** [{ canceled, assets }]; [assets] may be missing ([None]). *)
Record picker_result : Type := mk_picker_result {
  canceled : bool;
  assets : option (list picker_asset)
}.

(** [`${Date.now()}-${index}`] *)
Definition image_id (now index : nat) : string :=
  nat_str now ++ "-" ++ nat_str index.

(** [result.assets.map((asset, index) => ({ id, uri, width, height }))] *)
Definition new_images (now : nat) (assets : list picker_asset) : list image :=
  imap (fun index asset =>
          mk_image (image_id now index) (asset_uri asset)
            (asset_width asset) (asset_height asset))
       assets.

(** [pickImages]: [launch] is the picker's outcome (an error message when
    it throws), [now] the value of [Date.now()]; the result is the new
    image list ([setImages((prev) => [...prev, ...newImages])]) and the
    alerts shown. *)
Definition pickImages (os : platform) (status : string)
    (launch : string + picker_result) (now : nat) (images : list image)
    : list image * list alert :=
  let '(hasPermission, shown) := requestPermissions os status in
  if negb hasPermission then (images, shown)
  else
    match launch with
    | inl msg =>
        (images, (shown ++ [mk_alert "Error" ("Failed to pick images: " ++ msg)])%list)
    | inr result =>
        if negb (canceled result) then
          match assets result with
          | Some a => ((images ++ new_images now a)%list, shown)
          | None => (images, shown)
          end
        else (images, shown)
    end.

End Picker.
Import Picker.

(* ------------------------------------------------------------------ *)
(** ** Saving the PDF: [savePDFAndroid], [savePDFiOS] and the web branch *)

Module Saving.
Local Open Scope string_scope.

(** Outcome of [Sharing.shareAsync]. *)
Inductive share_outcome : Type :=
| Shared
| ShareError (message : string).

(** The platform branch of [generatePDF]: the alerts the save helpers show,
    and the error that escapes into [generatePDF]'s [catch], if any.
    [savePDFAndroid] and [savePDFiOS] catch their own errors; the web
    branch does not. *)
Definition save_pdf (os : platform) (available : bool) (res : share_outcome)
    : list alert * option string :=
  match os with
  | Android | IOS =>
      if available then
        match res with
        | Shared => ([], None)
        | ShareError m => ([mk_alert "Error" ("Failed to save PDF: " ++ m)], None)
        end
      else ([mk_alert "Error" "Sharing is not available on this device."], None)
  | Web =>
      if available then
        match res with
        | Shared => ([], None)
        | ShareError m => ([], Some m)
        end
      else ([], None)
  end.

(** The alerts shown from the platform branch to the end of [generatePDF]:
    [Alert.alert('Success', ...)] after the branch, or the [catch]. *)
Definition finish_generation (os : platform) (available : bool) (res : share_outcome)
    : list alert :=
  let '(saved, thrown) := save_pdf os available res in
  match thrown with
  | None => (saved ++ [mk_alert "Success" "PDF generated successfully!"])%list
  | Some m => (saved ++ [mk_alert "Error" ("Failed to generate PDF: " ++ m)])%list
  end.

End Saving.
Import Saving.

(** Position of a run's stage in [Encoding], [Rendering], [Saving], end. *)
Definition stage_rank (s : run_stage) : nat :=
  match s with
  | Encoding => 0
  | Rendering _ => 1
  | Saving _ => 2
  | Succeeded | Failed _ => 3
  end.




(** Equality of JavaScript numbers ([===] on finite values, which compares
    the rationals, not their representations). *)
Definition num_eqv (x y : number) : Prop :=
  match x, y with
  | Fin a, Fin b => (a == b)%Q
  | _, _ => x = y
  end.

Definition geometry_eqv (g g' : geometry) : Prop :=
  num_eqv (imageWidth g) (imageWidth g') /\ num_eqv (imageHeight g) (imageHeight g')
  /\ num_eqv (leftPos g) (leftPos g') /\ num_eqv (topPos g) (topPos g').

(* ------------------------------------------------------------------ *)
(** ** Lemmas on the fitter *)

Section FitterProofs.
Local Open Scope Q_scope.

Lemma Qeq_bool_pos_false (q : Q) : 0 < q -> Qeq_bool q 0 = false.
Proof.
  intros Hq. apply not_true_iff_false. intros E.
  apply Qeq_bool_eq in E. rewrite E in Hq. discriminate.
Qed.

Lemma Qcompare_pos (q : Q) : 0 < q -> (q ?= 0) = Gt.
Proof. intros Hq. apply Qgt_alt. exact Hq. Qed.

(** For positive dimensions the fitter takes exactly one of two finite
    branches, according to the comparison of [794 / (w / h)] with 1123. *)
Lemma fit_image_pos (w h : Q) : 0 < w -> 0 < h ->
  fit_image (Fin w) (Fin h) =
  if negb (Qle_bool (794 / (w / h)) 1123)
  then mk_geometry (Fin (1123 * (w / h))) (Fin 1123)
         (Fin ((794 - 1123 * (w / h)) / 2)) (Fin ((1123 - 1123) / 2))
  else mk_geometry (Fin 794) (Fin (794 / (w / h)))
         (Fin ((794 - 794) / 2)) (Fin ((1123 - 794 / (w / h)) / 2)).
Proof.
  intros Hw Hh.
  assert (Hr : 0 < w / h) by (apply Qlt_shift_div_l; [exact Hh | lra]).
  unfold fit_image, maxImageWidth, maxImageHeight, pageWidth, pageHeight.
  simpl. rewrite (Qeq_bool_pos_false h Hh).
  simpl. rewrite (Qeq_bool_pos_false (w / h) Hr).
  simpl. destruct (negb (Qle_bool (794 / (w / h)) 1123)); reflexivity.
Qed.

(** The two finite branches, with the facts both claims on the fitter use. *)
Lemma fit_image_pos_spec (w h : Q) : 0 < w -> 0 < h ->
  exists rw rh,
    fit_image (Fin w) (Fin h) =
      mk_geometry (Fin rw) (Fin rh) (Fin ((794 - rw) / 2)) (Fin ((1123 - rh) / 2))
    /\ 0 < rw /\ rw <= 794 /\ 0 < rh /\ rh <= 1123
    /\ rw / rh == w / h /\ (rw = 794 \/ rh = 1123).
Proof.
  intros Hw Hh.
  assert (Hr : 0 < w / h) by (apply Qlt_shift_div_l; [exact Hh | lra]).
  rewrite (fit_image_pos w h Hw Hh).
  set (r := w / h) in *.
  assert (Hx : 0 < 794 / r) by (apply Qlt_shift_div_l; [exact Hr | lra]).
  assert (Hrr : 794 / r * r == 794) by (field; intros E; rewrite E in Hr; discriminate).
  destruct (Qle_bool (794 / r) 1123) eqn:E; simpl.
  - apply Qle_bool_iff in E.
    exists 794, (794 / r). repeat split; try lra.
    + field. intros E0; rewrite E0 in Hr; discriminate.
    + left; reflexivity.
  - assert (Hlt : 1123 < 794 / r).
    { apply Qnot_le_lt. intros H. apply Qle_bool_iff in H. congruence. }
    assert (Hm : 1123 * r < 794).
    { rewrite <- Hrr. apply Qmult_lt_r; [exact Hr | exact Hlt]. }
    exists (1123 * r), 1123. repeat split; try lra.
    + field.
    + right; reflexivity.
Qed.

(* ------------------------------------------------------------------ *)
(** ** Claims on the fitter *)

(** C1: for positive image dimensions and the 794x1123 page, the fitted
    size lies within the page, has exactly the image's aspect ratio, and
    fills the page along at least one axis. *)
Theorem C1_fit_within_page (w h : Q) : 0 < w -> 0 < h ->
  exists rw rh,
    imageWidth (fit_image (Fin w) (Fin h)) = Fin rw
    /\ imageHeight (fit_image (Fin w) (Fin h)) = Fin rh
    /\ rw <= 794 /\ rh <= 1123
    /\ rw / rh == w / h
    /\ (rw = 794 \/ rh = 1123).
Proof.
  intros Hw Hh.
  destruct (fit_image_pos_spec w h Hw Hh)
    as (rw & rh & -> & _ & Hw' & _ & Hh' & Hratio & Hfill).
  exists rw, rh. simpl. auto 10.
Qed.

Lemma C1_fit_within_page_witness :
  0 < 800 /\ 0 < 600 /\
  exists rw rh,
    imageWidth (fit_image (Fin 800) (Fin 600)) = Fin rw
    /\ imageHeight (fit_image (Fin 800) (Fin 600)) = Fin rh
    /\ rw <= 794 /\ rh <= 1123
    /\ rw / rh == 800 / 600
    /\ (rw = 794 \/ rh = 1123).
Proof.
  split; [reflexivity | split; [reflexivity |]].
  apply (C1_fit_within_page 800 600); reflexivity.
Defined.

(** C4: for positive image dimensions the offsets are
    [(794 - renderW) / 2] and [(1123 - renderH) / 2], both non-negative,
    and twice each offset plus the rendered size gives the page size. *)
Theorem C4_fit_centered (w h : Q) : 0 < w -> 0 < h ->
  exists rw rh ox oy,
    fit_image (Fin w) (Fin h) = mk_geometry (Fin rw) (Fin rh) (Fin ox) (Fin oy)
    /\ ox = (794 - rw) / 2 /\ oy = (1123 - rh) / 2
    /\ 0 <= ox /\ 0 <= oy
    /\ ox * 2 + rw == 794 /\ oy * 2 + rh == 1123.
Proof.
  intros Hw Hh.
  destruct (fit_image_pos_spec w h Hw Hh)
    as (rw & rh & -> & _ & Hw' & _ & Hh' & _ & _).
  exists rw, rh, ((794 - rw) / 2), ((1123 - rh) / 2).
  repeat split.
  - apply Qle_shift_div_l; [reflexivity | lra].
  - apply Qle_shift_div_l; [reflexivity | lra].
  - field.
  - field.
Qed.

Lemma C4_fit_centered_witness :
  0 < 600 /\ 0 < 800 /\
  exists rw rh ox oy,
    fit_image (Fin 600) (Fin 800) = mk_geometry (Fin rw) (Fin rh) (Fin ox) (Fin oy)
    /\ ox = (794 - rw) / 2 /\ oy = (1123 - rh) / 2
    /\ 0 <= ox /\ 0 <= oy
    /\ ox * 2 + rw == 794 /\ oy * 2 + rh == 1123.
Proof.
  split; [reflexivity | split; [reflexivity |]].
  apply (C4_fit_centered 600 800); reflexivity.
Defined.

End FitterProofs.

(* ------------------------------------------------------------------ *)
(** ** Lemmas on the image list *)

Section RegistryLemmas.
Context {A : Type} (undefined : A).

Lemma array_get_middle (pre post : list A) (x : A) :
  array_get undefined (pre ++ x :: post) (length pre) = x.
Proof. unfold array_get. rewrite list_lookup_middle; reflexivity. Qed.

Lemma array_set_middle (pre post : list A) (x v : A) :
  array_set undefined (pre ++ x :: post) (length pre) v = pre ++ v :: post.
Proof.
  unfold array_set. rewrite decide_True.
  - rewrite insert_app_r_alt by lia. rewrite Nat.sub_diag. reflexivity.
  - rewrite length_app. simpl. lia.
Qed.

(** Exchanging the adjacent elements at [length pre] and [length pre + 1]
    the way the destructuring assignment does it. *)
Lemma swap_adjacent (pre post : list A) (x y : A) :
  let l := pre ++ x :: y :: post in
  array_set undefined
    (array_set undefined l (length pre) (array_get undefined l (length pre + 1)))
    (length pre + 1) (array_get undefined l (length pre))
  = pre ++ y :: x :: post.
Proof.
  cbv zeta.
  assert (Hr : pre ++ x :: y :: post = (pre ++ [x]) ++ y :: post)
    by (rewrite <- app_assoc; reflexivity).
  assert (Hlen : length pre + 1 = length (pre ++ [x]))
    by (rewrite length_app; reflexivity).
  assert (Hy : array_get undefined (pre ++ x :: y :: post) (length pre + 1) = y)
    by (rewrite Hr, Hlen; apply array_get_middle).
  rewrite Hy, array_get_middle, array_set_middle.
  replace (pre ++ y :: y :: post) with ((pre ++ [y]) ++ y :: post)
    by (rewrite <- app_assoc; reflexivity).
  assert (Hlen' : length pre + 1 = length (pre ++ [y]))
    by (rewrite length_app; reflexivity).
  rewrite Hlen', array_set_middle, <- app_assoc. reflexivity.
Qed.

Lemma split_adjacent (l : list A) (i : nat) :
  i + 1 < length l ->
  exists pre x y post, l = pre ++ x :: y :: post /\ length pre = i.
Proof.
  revert i. induction l as [|a l IH]; intros i Hi; simpl in Hi; [lia|].
  destruct i as [|i].
  - destruct l as [|b l]; simpl in Hi; [lia|].
    exists [], a, b, l. split; reflexivity.
  - destruct (IH i) as (pre & x & y & post & -> & Hp); [lia|].
    exists (a :: pre), x, y, post. split; [reflexivity | simpl; lia].
Qed.

Lemma moveImageUp_middle (pre post : list A) (x y : A) :
  moveImageUp undefined (pre ++ x :: y :: post) (length pre + 1)
  = pre ++ y :: x :: post.
Proof.
  unfold moveImageUp.
  replace (Nat.eqb (length pre + 1) 0) with false
    by (symmetry; apply Nat.eqb_neq; lia).
  replace (length pre + 1 - 1) with (length pre) by lia.
  cbv zeta. apply swap_adjacent.
Qed.

Lemma moveImageDown_middle (pre post : list A) (x y : A) :
  moveImageDown undefined (pre ++ x :: y :: post) (length pre)
  = pre ++ y :: x :: post.
Proof.
  unfold moveImageDown.
  replace (Z.eqb (Z.of_nat (length pre))
             (Z.of_nat (length (pre ++ x :: y :: post)) - 1)) with false.
  - cbv zeta. apply swap_adjacent.
  - symmetry. apply Z.eqb_neq. rewrite length_app. simpl. lia.
Qed.

Lemma removeImage_keep_all (id_of : A -> string) (l : list A) (k : string) :
  Forall (fun img => id_of img <> k) l -> removeImage id_of l k = l.
Proof.
  induction 1 as [|img l Hne _ IH]; [reflexivity|].
  unfold removeImage in *. simpl.
  destruct (String.eqb_spec (id_of img) k) as [E|_]; [contradiction|].
  simpl. rewrite IH. reflexivity.
Qed.

Lemma not_in_map_forall (id_of : A -> string) (l : list A) (k : string) :
  ~ In k (map id_of l) -> Forall (fun img => id_of img <> k) l.
Proof.
  intros Hn. apply List.Forall_forall. intros img Hin E.
  apply Hn. rewrite <- E. apply in_map. exact Hin.
Qed.

(** C8: [moveImageUp 0] and [moveImageDown] at the last index return the
    list unchanged; at an index with a predecessor (resp. successor)
    [moveImageUp] (resp. [moveImageDown]) exchanges the element with it and
    leaves every other element in place. *)
Theorem C8_move_boundaries_and_swaps :
  (forall l : list A, moveImageUp undefined l 0 = l)
  /\ (forall (l : list A) (x : A),
        moveImageDown undefined (l ++ [x]) (length l) = l ++ [x])
  /\ (forall (l : list A) (i : nat), 0 < i < length l ->
        exists pre x y post,
          l = pre ++ x :: y :: post /\ length pre = i - 1
          /\ moveImageUp undefined l i = pre ++ y :: x :: post)
  /\ (forall (l : list A) (i : nat), i + 1 < length l ->
        exists pre x y post,
          l = pre ++ x :: y :: post /\ length pre = i
          /\ moveImageDown undefined l i = pre ++ y :: x :: post).
Proof.
  split; [|split; [|split]].
  - intros l. reflexivity.
  - intros l x. unfold moveImageDown.
    replace (Z.eqb (Z.of_nat (length l)) (Z.of_nat (length (l ++ [x])) - 1))
      with true; [reflexivity|].
    symmetry. apply Z.eqb_eq. rewrite length_app. simpl. lia.
  - intros l i Hi.
    destruct (split_adjacent l (i - 1)) as (pre & x & y & post & -> & Hp); [lia|].
    exists pre, x, y, post. split; [reflexivity | split; [exact Hp|]].
    replace i with (length pre + 1) by lia. apply moveImageUp_middle.
  - intros l i Hi.
    destruct (split_adjacent l i) as (pre & x & y & post & -> & Hp); [lia|].
    exists pre, x, y, post. split; [reflexivity | split; [exact Hp|]].
    rewrite <- Hp. apply moveImageDown_middle.
Qed.

(** C9: [removeImage] is the identity when no entry has the id; when ids
    are unique it deletes exactly the entry with that id, the others
    keeping their order. *)
Theorem C9_remove_by_id (id_of : A -> string) :
  (forall (l : list A) (k : string),
      Forall (fun img => id_of img <> k) l -> removeImage id_of l k = l)
  /\ (forall (l pre post : list A) (x : A) (k : string),
      NoDup (map id_of l) -> l = pre ++ x :: post -> id_of x = k ->
      removeImage id_of l k = pre ++ post).
Proof.
  split; [apply removeImage_keep_all|].
  intros l pre post x k Hnd -> Hx.
  rewrite map_app in Hnd. simpl in Hnd.
  apply NoDup_app in Hnd as (Hpre & Hdisj & Hrest).
  apply NoDup_cons in Hrest as (Hnotpost & _).
  assert (Hnotpre : ~ In k (map id_of pre)).
  { intros Hin. rewrite <- Hx in Hin.
    apply (Hdisj (id_of x)); [apply list_elem_of_In; exact Hin | left]. }
  assert (Hnotpost' : ~ In k (map id_of post)).
  { intros Hin. rewrite <- Hx in Hin. apply Hnotpost, list_elem_of_In, Hin. }
  unfold removeImage. rewrite List.filter_app. simpl.
  rewrite Hx, String.eqb_refl. simpl.
  fold (removeImage id_of pre k). fold (removeImage id_of post k).
  rewrite !removeImage_keep_all; [reflexivity | |];
    apply not_in_map_forall; [exact Hnotpost' | exact Hnotpre].
Qed.

(** C10: for [0 < i < length l], [moveImageUp i] followed by
    [moveImageDown (i - 1)] gives back the list, and each of the two moves
    permutes the list. *)
Theorem C10_move_roundtrip (l : list A) (i : nat) : 0 < i < length l ->
  moveImageDown undefined (moveImageUp undefined l i) (i - 1) = l
  /\ Permutation (moveImageUp undefined l i) l
  /\ Permutation (moveImageDown undefined l (i - 1)) l.
Proof.
  intros Hi.
  destruct (split_adjacent l (i - 1)) as (pre & x & y & post & -> & Hp); [lia|].
  replace i with (length pre + 1) by lia.
  replace (length pre + 1 - 1) with (length pre) by lia.
  rewrite moveImageUp_middle, moveImageDown_middle, moveImageDown_middle.
  split; [reflexivity|].
  split; apply Permutation_app_head; apply perm_swap.
Qed.

End RegistryLemmas.

Lemma C10_move_roundtrip_witness :
  0 < 1 < length [10; 20; 30]
  /\ moveImageDown 0 (moveImageUp 0 [10; 20; 30] 1) (1 - 1) = [10; 20; 30]
  /\ Permutation (moveImageUp 0 [10; 20; 30] 1) [10; 20; 30]
  /\ Permutation (moveImageDown 0 [10; 20; 30] (1 - 1)) [10; 20; 30].
Proof.
  split; [simpl; lia|].
  apply (C10_move_roundtrip 0 [10; 20; 30] 1). simpl; lia.
Defined.

(* ------------------------------------------------------------------ *)
(** ** Lemmas on the pipeline *)

Section PipelineProofs.
Local Open Scope string_scope.

Lemma first_rejection_found {X : Type} (ps : list (string + X)) (ord : list nat)
    (k : nat) (e : string) :
  In k ord -> ps !! k = Some (inl e) ->
  exists j e', first_rejection ps ord = Some e' /\ ps !! j = Some (inl e').
Proof.
  intros Hin Hk. induction ord as [|i ord IH]; [destruct Hin|].
  simpl. destruct (ps !! i) as [[e'|v]|] eqn:Hi.
  - exists i, e'. split; [reflexivity | exact Hi].
  - destruct Hin as [<-|Hin]; [congruence | exact (IH Hin)].
  - destruct Hin as [<-|Hin]; [congruence | exact (IH Hin)].
Qed.

Lemma first_rejection_none {X : Type} (ps : list (string + X)) (ord : list nat) :
  (forall j e, ps !! j <> Some (inl e)) -> first_rejection ps ord = None.
Proof.
  intros Hall. induction ord as [|i ord IH]; [reflexivity|].
  simpl. destruct (ps !! i) as [[e|v]|] eqn:Hi; [|exact IH|exact IH].
  exfalso. exact (Hall i e Hi).
Qed.

(** When every read succeeds, each promise fulfils with its image. *)
Lemma reads_all_ok (reads : nat -> read_result) (snap : list image) :
  forall f : nat -> nat,
  (forall i, i < length snap -> exists b, reads (f i) = ReadOk b) ->
  (forall j e, imap (fun i => read_image reads (f i)) snap !! j <> Some (inl e))
  /\ map source (values (imap (fun i => read_image reads (f i)) snap)) = snap.
Proof.
  induction snap as [|x snap IH]; intros f Hok.
  - split; [intros j e H; discriminate H | reflexivity].
  - destruct (Hok 0) as [b Hb]; [simpl; lia|].
    destruct (IH (fun i => f (S i))) as [Hno Hsrc].
    { intros i Hi. apply Hok. simpl. lia. }
    assert (Hx : read_image reads (f 0) x
                 = inr (mk_image_with_data x
                          ("data:" ++ mimeType_of (uri x) ++ ";base64," ++ b)))
      by (unfold read_image; rewrite Hb; reflexivity).
    rewrite imap_cons.
    change (imap ((fun i => read_image reads (f i)) ∘ S) snap)
      with (imap (fun i => read_image reads (f (S i))) snap).
    change ((fun i => read_image reads (f i)) 0 x) with (read_image reads (f 0) x).
    rewrite Hx. simpl.
    split.
    + intros [|j] e H; [discriminate H|]. exact (Hno j e H).
    + rewrite Hsrc. reflexivity.
Qed.

Lemma read_image_inl (reads : nat -> read_result) (j : nat) (img : image) (e : string) :
  read_image reads j img = inl e ->
  exists m, reads j = ReadErr m
            /\ e = "Failed to process image " ++ nat_str (j + 1) ++ ": " ++ m.
Proof.
  unfold read_image. destruct (reads j) as [b|m]; intros H; [discriminate H|].
  injection H as <-. exists m. split; reflexivity.
Qed.

(** A run that is no longer in flight is never touched again. *)
Lemma finished_run_stays (st : state) (ev : event) (r : nat) (ru : run) :
  runs st !! r = Some ru -> in_flight ru = false ->
  runs (step st ev) !! r = Some ru.
Proof.
  intros Hr Hf.
  assert (Hlt : r < length (runs st)) by (eapply lookup_lt_Some; exact Hr).
  destruct ev as [| | |r' ord reads|r' res|r' err]; simpl.
  - destruct (isGenerating st); [exact Hr|].
    unfold generatePDF. destruct (Nat.eqb (length (images st)) 0); simpl;
      [exact Hr|]. rewrite lookup_app_l by exact Hlt. exact Hr.
  - destruct (isGenerating st); exact Hr.
  - exact Hr.
  - destruct (runs st !! r') as [ru'|] eqn:Hr'; [|exact Hr].
    destruct (decide (r' = r)) as [->|Hne].
    + rewrite Hr in Hr'. injection Hr' as <-.
      unfold in_flight in Hf. destruct (stage ru); try discriminate Hf; exact Hr.
    + destruct (stage ru'); try exact Hr.
      destruct (promise_all _ ord); simpl;
        rewrite list_lookup_insert_ne by exact Hne; exact Hr.
  - destruct (runs st !! r') as [ru'|] eqn:Hr'; [|exact Hr].
    destruct (decide (r' = r)) as [->|Hne].
    + rewrite Hr in Hr'. injection Hr' as <-.
      unfold in_flight in Hf. destruct (stage ru); try discriminate Hf;
        destruct res; exact Hr.
    + destruct (stage ru'); destruct res; try exact Hr; simpl;
        rewrite list_lookup_insert_ne by exact Hne; exact Hr.
  - destruct (runs st !! r') as [ru'|] eqn:Hr'; [|exact Hr].
    destruct (decide (r' = r)) as [->|Hne].
    + rewrite Hr in Hr'. injection Hr' as <-.
      unfold in_flight in Hf. destruct (stage ru); try discriminate Hf; exact Hr.
    + destruct (stage ru'); try exact Hr; simpl;
        rewrite list_lookup_insert_ne by exact Hne; exact Hr.
Qed.

(** C5: the composer yields one page per encoded image, in list order;
    page [i] carries the [i]-th image's data URI, the fitter's geometry for
    that image alone, and a page break exactly when [i < N - 1].  Being a
    function of the list, it gives the same pages on the same input. *)
Theorem C5_imageHTML_pages (xs : list image_with_data) :
  length (imageHTML xs) = length xs
  /\ (forall i x, xs !! i = Some x ->
        imageHTML xs !! i
        = Some (mk_page (dataUri x)
                  (fit_image (width (source x)) (height (source x)))
                  (bool_decide (i < length xs - 1)))).
Proof.
  split; [apply length_imap|].
  intros i x Hx.
  assert (Hi : i < length xs) by (eapply lookup_lt_Some; exact Hx).
  unfold imageHTML. rewrite list_lookup_imap, Hx. simpl. f_equal. f_equal.
  destruct (Z.ltb_spec (Z.of_nat i) (Z.of_nat (length xs) - 1)).
  - symmetry. apply bool_decide_eq_true_2. lia.
  - symmetry. apply bool_decide_eq_false_2. lia.
Qed.

(** C6: when the reads of a run settle and one of them failed, the run
    ends in [Failed] with the message of a failing image: its 1-based
    position and the read error; the flag is cleared, the only new alert
    is that error, and the run is never resumed (no PDF is printed). *)
Theorem C6_read_failure_fails_run (st : state) (r : nat) (ru : run)
    (ord : list nat) (reads : nat -> read_result) (k : nat) (m : string) :
  runs st !! r = Some ru -> stage ru = Encoding ->
  Permutation ord (seq 0 (length (snapshot ru))) ->
  k < length (snapshot ru) -> reads k = ReadErr m ->
  exists j m',
    j < length (snapshot ru) /\ reads j = ReadErr m'
    /\ runs (step st (ReadsSettled r ord reads)) !! r
       = Some (mk_run (snapshot ru)
                 (Failed ("Failed to process image " ++ nat_str (j + 1) ++ ": " ++ m')))
    /\ isGenerating (step st (ReadsSettled r ord reads)) = false
    /\ alerts (step st (ReadsSettled r ord reads))
       = (alerts st ++ [mk_alert "Error" ("Failed to generate PDF: Failed to process image "
                                           ++ nat_str (j + 1) ++ ": " ++ m')])%list
    /\ (forall ev, runs (step (step st (ReadsSettled r ord reads)) ev) !! r
                   = runs (step st (ReadsSettled r ord reads)) !! r).
Proof.
  intros Hru Hst Hperm Hk Hm.
  assert (Hlt : r < length (runs st)) by (eapply lookup_lt_Some; exact Hru).
  assert (Hin : In k ord).
  { eapply Permutation_in; [symmetry; exact Hperm|]. apply in_seq. lia. }
  destruct (lookup_lt_is_Some_2 (snapshot ru) k Hk) as [y Hy].
  assert (Hpk : imap (read_image reads) (snapshot ru) !! k
                = Some (read_image reads k y))
    by (rewrite list_lookup_imap, Hy; reflexivity).
  unfold read_image at 2 in Hpk. rewrite Hm in Hpk.
  destruct (first_rejection_found _ ord k _ Hin Hpk) as (j & e & Hfr & Hj).
  apply list_lookup_imap_Some in Hj as (z & Hz & Hzj).
  symmetry in Hzj. apply read_image_inl in Hzj as (m' & Hm' & ->).
  exists j, m'.
  assert (Hstep : step st (ReadsSettled r ord reads)
                  = fail_run st r ru
                      ("Failed to process image " ++ nat_str (j + 1) ++ ": " ++ m')).
  { simpl. rewrite Hru, Hst. unfold promise_all. rewrite Hfr. reflexivity. }
  rewrite Hstep.
  split; [eapply lookup_lt_Some; exact Hz|].
  split; [exact Hm'|].
  split; [simpl; apply list_lookup_insert_eq; exact Hlt|].
  split; [reflexivity|].
  split; [reflexivity|].
  intros ev.
  assert (Hf : runs (fail_run st r ru
                       ("Failed to process image " ++ nat_str (j + 1) ++ ": " ++ m')) !! r
               = Some (mk_run (snapshot ru)
                         (Failed ("Failed to process image " ++ nat_str (j + 1) ++ ": " ++ m'))))
    by (simpl; apply list_lookup_insert_eq; exact Hlt).
  rewrite Hf. apply finished_run_stays; [exact Hf | reflexivity].
Qed.

(** C7: with no image selected, [generatePDF] only shows the "No Images"
    alert: no run starts and the generation flag keeps its value; the
    same holds for a press of the Generate button. *)
Theorem C7_empty_generate_noop (st : state) : images st = [] ->
  runs (generatePDF st) = runs st
  /\ isGenerating (generatePDF st) = isGenerating st
  /\ alerts (generatePDF st)
     = (alerts st ++ [mk_alert "No Images"
                        "Please select at least one image to convert to PDF."])%list
  /\ runs (step st PressGenerate) = runs st
  /\ isGenerating (step st PressGenerate) = isGenerating st.
Proof.
  intros He. unfold generatePDF. rewrite He. simpl.
  split; [reflexivity|]. split; [reflexivity|]. split; [reflexivity|].
  destruct (isGenerating st) eqn:Hg; simpl; [rewrite Hg; split; reflexivity|].
  unfold generatePDF. rewrite He. simpl. split; [reflexivity | exact Hg].
Qed.

Lemma C7_empty_generate_noop_witness :
  images initial_state = []
  /\ runs (generatePDF initial_state) = runs initial_state
  /\ isGenerating (generatePDF initial_state) = isGenerating initial_state
  /\ alerts (generatePDF initial_state)
     = (alerts initial_state ++ [mk_alert "No Images"
                        "Please select at least one image to convert to PDF."])%list
  /\ runs (step initial_state PressGenerate) = runs initial_state
  /\ isGenerating (step initial_state PressGenerate) = isGenerating initial_state.
Proof.
  split; [reflexivity|]. apply (C7_empty_generate_noop initial_state). reflexivity.
Defined.

End PipelineProofs.

Lemma C6_read_failure_fails_run_witness :
  let st := Samples.generating [Samples.photo; Samples.photo] in
  let ru := mk_run [Samples.photo; Samples.photo] Encoding in
  runs st !! 0 = Some ru /\ stage ru = Encoding
  /\ Permutation [1; 0] (seq 0 (length (snapshot ru)))
  /\ 1 < length (snapshot ru) /\ Samples.reads_second_fails 1 = ReadErr "File not found"
  /\ exists j m',
    j < length (snapshot ru) /\ Samples.reads_second_fails j = ReadErr m'
    /\ runs (step st (ReadsSettled 0 [1; 0] Samples.reads_second_fails)) !! 0
       = Some (mk_run (snapshot ru)
                 (Failed ("Failed to process image " ++ nat_str (j + 1) ++ ": " ++ m')))
    /\ isGenerating (step st (ReadsSettled 0 [1; 0] Samples.reads_second_fails)) = false
    /\ alerts (step st (ReadsSettled 0 [1; 0] Samples.reads_second_fails))
       = (alerts st ++ [mk_alert "Error" ("Failed to generate PDF: Failed to process image "
                                           ++ nat_str (j + 1) ++ ": " ++ m')])%list
    /\ (forall ev, runs (step (step st (ReadsSettled 0 [1; 0] Samples.reads_second_fails)) ev) !! 0
                   = runs (step st (ReadsSettled 0 [1; 0] Samples.reads_second_fails)) !! 0).
Proof.
  cbv zeta.
  assert (H1 : runs (Samples.generating [Samples.photo; Samples.photo]) !! 0
               = Some (mk_run [Samples.photo; Samples.photo] Encoding)) by reflexivity.
  assert (H2 : Permutation [1; 0] (seq 0 (length (snapshot (mk_run [Samples.photo; Samples.photo] Encoding)))))
    by (simpl; apply perm_swap).
  split; [exact H1|]. split; [reflexivity|]. split; [exact H2|].
  split; [simpl; lia|]. split; [reflexivity|].
  apply (C6_read_failure_fails_run _ 0 _ [1; 0] Samples.reads_second_fails 1 "File not found");
    [exact H1 | reflexivity | exact H2 | simpl; lia | reflexivity].
Defined.

(* ------------------------------------------------------------------ *)
(** ** At most one run in flight *)

Section InFlight.

Lemma flight_inv_finish (g : bool) (rs : list run) (r : nat) (ru ru' : run) :
  flight_inv g rs -> rs !! r = Some ru -> in_flight ru = true ->
  in_flight ru' = false -> flight_inv false (<[r := ru']> rs).
Proof.
  intros [Hg Hu] Hr Hf Hf'.
  assert (Hnone : forall r2 ru2, <[r := ru']> rs !! r2 = Some ru2 ->
                    in_flight ru2 = true -> False).
  { intros r2 ru2 H2 Hf2. destruct (decide (r = r2)) as [<-|Hne].
    - rewrite list_lookup_insert_eq in H2 by (eapply lookup_lt_Some; exact Hr).
      injection H2 as <-. congruence.
    - rewrite list_lookup_insert_ne in H2 by exact Hne.
      apply Hne. exact (Hu r r2 ru ru2 Hr H2 Hf Hf2). }
  split.
  - intros r2 ru2 H2 Hf2. exfalso. exact (Hnone r2 ru2 H2 Hf2).
  - intros r1 r2 ru1 ru2 H1 _ Hf1 _. exfalso. exact (Hnone r1 ru1 H1 Hf1).
Qed.

Lemma flight_inv_advance (g : bool) (rs : list run) (r : nat) (ru ru' : run) :
  flight_inv g rs -> rs !! r = Some ru -> in_flight ru = true ->
  flight_inv g (<[r := ru']> rs).
Proof.
  intros [Hg Hu] Hr Hf.
  assert (Hlt : r < length rs) by (eapply lookup_lt_Some; exact Hr).
  assert (Honly : forall r2 ru2, <[r := ru']> rs !! r2 = Some ru2 ->
                    in_flight ru2 = true -> r2 = r).
  { intros r2 ru2 H2 Hf2. destruct (decide (r = r2)) as [<-|Hne]; [reflexivity|].
    rewrite list_lookup_insert_ne in H2 by exact Hne.
    exact (Hu r2 r ru2 ru H2 Hr Hf2 Hf). }
  split.
  - intros _ _ _ _. exact (Hg r ru Hr Hf).
  - intros r1 r2 ru1 ru2 H1 H2 Hf1 Hf2.
    rewrite (Honly r1 ru1 H1 Hf1), (Honly r2 ru2 H2 Hf2). reflexivity.
Qed.

Lemma flight_inv_step (st : state) (ev : event) :
  flight_inv (isGenerating st) (runs st) ->
  flight_inv (isGenerating (step st ev)) (runs (step st ev)).
Proof.
  intros Hinv.
  destruct ev as [|assets|k|r ord reads|r res|r err]; simpl.
  - destruct (isGenerating st) eqn:Hg; [rewrite Hg; exact Hinv|].
    unfold generatePDF. destruct (Nat.eqb (length (images st)) 0); simpl;
      [rewrite Hg; exact Hinv|].
    destruct Hinv as [Hf _].
    assert (Hold : forall r ru, (runs st ++ [mk_run (images st) Encoding]) !! r = Some ru ->
                     in_flight ru = true -> r = length (runs st)).
    { intros r ru Hr Hfl. apply lookup_app_Some in Hr as [Hr|[Hge Hr]].
      - discriminate (Hf r ru Hr Hfl).
      - apply list_lookup_singleton_Some in Hr as [Hr _]. lia. }
    split; [reflexivity|].
    intros r1 r2 ru1 ru2 H1 H2 Hf1 Hf2.
    rewrite (Hold r1 ru1 H1 Hf1), (Hold r2 ru2 H2 Hf2). reflexivity.
  - destruct (isGenerating st) eqn:Hg; simpl; rewrite ?Hg; exact Hinv.
  - exact Hinv.
  - destruct (runs st !! r) as [ru|] eqn:Hr; [|exact Hinv].
    destruct (stage ru) eqn:Hs; try exact Hinv.
    assert (Hfl : in_flight ru = true) by (unfold in_flight; rewrite Hs; reflexivity).
    destruct (promise_all _ ord); simpl.
    + eapply flight_inv_finish; [exact Hinv | exact Hr | exact Hfl | reflexivity].
    + eapply flight_inv_advance; [exact Hinv | exact Hr | exact Hfl].
  - destruct (runs st !! r) as [ru|] eqn:Hr; [|exact Hinv].
    destruct (stage ru) eqn:Hs; destruct res; try exact Hinv;
      (assert (Hfl : in_flight ru = true) by (unfold in_flight; rewrite Hs; reflexivity));
      simpl.
    + eapply flight_inv_finish; [exact Hinv | exact Hr | exact Hfl | reflexivity].
    + eapply flight_inv_advance; [exact Hinv | exact Hr | exact Hfl].
  - destruct (runs st !! r) as [ru|] eqn:Hr; [|exact Hinv].
    destruct (stage ru) eqn:Hs; try exact Hinv.
    assert (Hfl : in_flight ru = true) by (unfold in_flight; rewrite Hs; reflexivity).
    simpl. eapply flight_inv_finish; [exact Hinv | exact Hr | exact Hfl | reflexivity].
Qed.

Lemma reachable_flight_inv (st : state) :
  reachable st -> flight_inv (isGenerating st) (runs st).
Proof.
  intros Hr. induction Hr as [|st' ev _ IH].
  - split; [intros r ru Hl | intros r1 r2 ru1 ru2 Hl];
      change (runs initial_state) with (@nil run) in Hl; rewrite lookup_nil in Hl; discriminate Hl.
  - apply flight_inv_step. exact IH.
Qed.

End InFlight.

(* ------------------------------------------------------------------ *)
(** ** Claims on re-entrancy and degenerate images *)

(** C3 (as the code does it): [generatePDF] does not look at
    [isGenerating]; the Generate button is [disabled={isGenerating}].  In
    every reachable state with a run in flight, a press of the button is
    ignored: the state, the in-flight run included, is unchanged, and no
    error is raised or queued. *)
Theorem C3_press_while_in_flight_ignored (st : state) (r : nat) (ru : run) :
  reachable st -> runs st !! r = Some ru -> in_flight ru = true ->
  step st PressGenerate = st.
Proof.
  intros Hreach Hr Hf.
  destruct (reachable_flight_inv st Hreach) as [Hg _].
  simpl. rewrite (Hg r ru Hr Hf). reflexivity.
Qed.

Lemma C3_press_while_in_flight_ignored_witness :
  reachable (Samples.generating [Samples.photo])
  /\ runs (Samples.generating [Samples.photo]) !! 0
     = Some (mk_run [Samples.photo] Encoding)
  /\ in_flight (mk_run [Samples.photo] Encoding) = true
  /\ step (Samples.generating [Samples.photo]) PressGenerate
     = Samples.generating [Samples.photo].
Proof.
  assert (Hreach : reachable (Samples.generating [Samples.photo])).
  { unfold Samples.generating.
    apply reachable_step, reachable_step, reachable_init. }
  assert (Hr : runs (Samples.generating [Samples.photo]) !! 0
               = Some (mk_run [Samples.photo] Encoding)) by reflexivity.
  split; [exact Hreach|]. split; [exact Hr|]. split; [reflexivity|].
  apply (C3_press_while_in_flight_ignored _ 0 (mk_run [Samples.photo] Encoding));
    [exact Hreach | exact Hr | reflexivity].
Defined.

(** C3 fails as stated: a second [generatePDF()] while a run is in flight
    is not rejected; it starts a second run beside the first and reports
    nothing, and the button press that would issue it is dropped silently,
    without any error. *)
Lemma C3_reentrant_generate_counterexample :
  let st := Samples.generating [Samples.photo] in
  runs st = [mk_run [Samples.photo] Encoding]
  /\ isGenerating st = true
  /\ runs (generatePDF st)
     = [mk_run [Samples.photo] Encoding; mk_run [Samples.photo] Encoding]
  /\ alerts (generatePDF st) = []
  /\ alerts (step st PressGenerate) = [].
Proof. repeat split; reflexivity. Qed.

(** C2 (as the code does it): no dimension is validated.  Height 0 is
    fitted to 794 x 0, width 0 to 0 x 1123, both 0 give a NaN height and
    vertical offset; and a run whose reads succeed reaches the rendering
    step whatever the dimensions of its images, with the pages composed
    from its snapshot in order. *)
Theorem C2_zero_dimensions_not_rejected :
  (forall w : Q, (0 < w)%Q ->
     fit_image (Fin w) (Fin 0)
     = mk_geometry (Fin 794) (Fin 0) (Fin ((794 - 794) / 2)) (Fin ((1123 - 0) / 2)))
  /\ (forall h : Q, (0 < h)%Q ->
        exists rw ox,
          fit_image (Fin 0) (Fin h)
          = mk_geometry (Fin rw) (Fin 1123) (Fin ox) (Fin ((1123 - 1123) / 2))
          /\ (rw == 0)%Q /\ (ox == 397)%Q)
  /\ imageHeight (fit_image (Fin 0) (Fin 0)) = NaN
  /\ topPos (fit_image (Fin 0) (Fin 0)) = NaN
  /\ (forall (st : state) (ord : list nat) (reads : nat -> read_result),
        images st <> [] -> isGenerating st = false ->
        (forall i, i < length (images st) -> exists b, reads i = ReadOk b) ->
        exists imagesWithData,
          map source imagesWithData = images st
          /\ runs (step (step st PressGenerate) (ReadsSettled (length (runs st)) ord reads))
               !! length (runs st)
             = Some (mk_run (images st) (Rendering (imageHTML imagesWithData)))).
Proof.
  split; [|split; [|split; [|split]]].
  - intros w Hw. unfold fit_image. simpl. rewrite (Qcompare_pos w Hw). reflexivity.
  - intros h Hh. unfold fit_image. simpl.
    rewrite (Qeq_bool_pos_false h Hh). simpl.
    eexists; eexists; split; [reflexivity|].
    unfold Qdiv. split; [ring | rewrite Qmult_0_l; ring_simplify; reflexivity].
  - reflexivity.
  - reflexivity.
  - intros st ord reads Hne Hg Hok.
    destruct (reads_all_ok reads (images st) (fun i => i) Hok) as [Hno Hsrc].
    exists (values (imap (read_image reads) (images st))).
    split; [exact Hsrc|].
    simpl. rewrite Hg. unfold generatePDF.
    replace (Nat.eqb (length (images st)) 0) with false
      by (symmetry; apply Nat.eqb_neq; intros E; apply Hne, nil_length_inv, E).
    simpl. rewrite list_lookup_middle by reflexivity. simpl.
    unfold promise_all. rewrite first_rejection_none by exact Hno.
    simpl. apply list_lookup_insert_eq. rewrite length_app. simpl. lia.
Qed.

(** C2 fails as stated: an image of height 0 is not rejected; its run
    reaches the rendering step with a page of height 0 and no alert, and
    an image of size 0 x 0 gets a NaN height. *)
Lemma C2_zero_height_counterexample :
  runs (step (Samples.generating [Samples.flat]) (ReadsSettled 0 [0] Samples.reads_ok)) !! 0
  = Some (mk_run [Samples.flat]
            (Rendering [mk_page "data:image/png;base64,QUFB"
                          (mk_geometry (Fin 794) (Fin 0)
                             (Fin ((794 - 794) / 2)) (Fin ((1123 - 0) / 2)))
                          false]))
  /\ alerts (step (Samples.generating [Samples.flat]) (ReadsSettled 0 [0] Samples.reads_ok)) = []
  /\ imageHeight (fit_image (Fin 0) (Fin 0)) = NaN.
Proof. repeat split; reflexivity. Qed.

(* ------------------------------------------------------------------ *)
(** ** Image ids *)

Section ImageIds.











End ImageIds.

(* ------------------------------------------------------------------ *)
(** ** Further properties: selecting images *)

(** [pickImages] keeps the current images in place and only appends; it
    appends something only when the permission is granted (or on the web)
    and the picker returned, not canceled, a list of assets, and then it
    appends the images built from those assets. *)
Theorem pickImages_only_appends (os : platform) (status : string)
    (launch : string + picker_result) (now : nat) (images : list image) :
  exists suffix,
    fst (pickImages os status launch now images) = images ++ suffix
    /\ (suffix <> [] ->
        (os = Web \/ status = "granted"%string)
        /\ exists a, launch = inr (mk_picker_result false (Some a))
                     /\ suffix = new_images now a).
Proof.
  unfold pickImages.
  assert (Hperm : forall g shown, requestPermissions os status = (g, shown) ->
                    g = true -> os = Web \/ status = "granted"%string).
  { intros g shown H Hg. destruct os; [| |left; reflexivity]; right; simpl in H;
      destruct (String.eqb_spec status "granted") as [E|E];
      try exact E; injection H as <- _; discriminate Hg. }
  destruct (requestPermissions os status) as [g shown] eqn:Hreq.
  destruct g; simpl;
    [| exists []; rewrite app_nil_r; split; [reflexivity | intros H; contradiction]].
  destruct launch as [msg|[[|] [a|]]]; simpl;
    try (exists []; rewrite app_nil_r; split; [reflexivity | intros H; contradiction]).
  exists (new_images now a). split; [reflexivity|].
  intros _. split; [exact (Hperm true shown eq_refl eq_refl)|].
  exists a. split; reflexivity.
Qed.

(** Outside the web, a refused permission shows the "Permission Required"
    alert and leaves the images as they are, whatever the picker would
    have returned: the picker is never consulted. *)
Theorem pickImages_denied (os : platform) (status : string)
    (launch : string + picker_result) (now : nat) (images : list image) :
  os <> Web -> status <> "granted"%string ->
  pickImages os status launch now images
  = (images, [mk_alert "Permission Required"
                "Sorry, we need camera roll permissions to select images!"]).
Proof.
  intros Hos Hst. unfold pickImages, requestPermissions.
  destruct os; [| | contradiction];
    (destruct (String.eqb_spec status "granted") as [E|E]; [contradiction | reflexivity]).
Qed.

Lemma pickImages_denied_witness :
  Android <> Web /\ "denied"%string <> "granted"%string
  /\ pickImages Android "denied" (inr (mk_picker_result false (Some []))) 5 []
     = ([], [mk_alert "Permission Required"
               "Sorry, we need camera roll permissions to select images!"]).
Proof.
  split; [discriminate|]. split; [discriminate|].
  apply pickImages_denied; discriminate.
Defined.



(* ------------------------------------------------------------------ *)
(** ** Further properties: the pages of a run *)

Lemma prefix_index_zero (t s : string) :
  String.prefix t s = true -> String.index 0 t s = Some 0.
Proof.
  destruct s as [|b s']; simpl.
  - destruct t; [reflexivity | discriminate].
  - intros ->. reflexivity.
Qed.

Lemma index_cons_zero (p : string) (b : ascii) (s' : string) :
  String.index 0 p (String b s')
  = if String.prefix p (String b s') then Some 0
    else match String.index 0 p s' with Some n => Some (S n) | None => None end.
Proof. reflexivity. Qed.

Lemma prefix_cons (c b : ascii) (t s' : string) :
  String.prefix (String c t) (String b s')
  = if ascii_dec c b then String.prefix t s' else false.
Proof. reflexivity. Qed.

Lemma index_drop_head (c : ascii) (t s : string) :
  String.index 0 (String c t) s <> None -> String.index 0 t s <> None.
Proof.
  induction s as [|b s' IH]; [intros H; exfalso; apply H; reflexivity|].
  rewrite !index_cons_zero. intros H.
  destruct (String.prefix (String c t) (String b s')) eqn:Hp.
  - rewrite prefix_cons in Hp. destruct (ascii_dec c b); [|discriminate Hp].
    destruct (String.prefix t (String b s')); [discriminate|].
    rewrite prefix_index_zero by exact Hp. discriminate.
  - destruct (String.prefix t (String b s')); [discriminate|].
    destruct (String.index 0 (String c t) s') as [n|] eqn:E; [|contradiction].
    destruct (String.index 0 t s') as [m|]; [discriminate|].
    exfalso. apply IH; [discriminate | reflexivity].
Qed.

Lemma includes_drop_head (c : ascii) (t s : string) :
  includes s (String c t) = true -> includes s t = true.
Proof.
  unfold includes. intros H.
  destruct (String.index 0 (String c t) s) eqn:E; [|discriminate H].
  destruct (String.index 0 t s) eqn:E'; [reflexivity|].
  exfalso. apply (index_drop_head c t s); [rewrite E; discriminate | exact E'].
Qed.

Lemma values_all_inr {X : Type} (f : nat -> image -> string + X) (g : nat -> image -> X) :
  forall l : list image,
  (forall i x, l !! i = Some x -> f i x = inr (g i x)) ->
  values (imap f l) = imap g l.
Proof.
  intros l. revert f g. induction l as [|x l IH]; intros f g Hfg; [reflexivity|].
  rewrite !imap_cons. rewrite (Hfg 0 x eq_refl). simpl. f_equal.
  apply IH. intros i y Hy. apply (Hfg (S i) y Hy).
Qed.

Lemma imageHTML_lookup (xs : list image_with_data) (i : nat) (x : image_with_data) :
  xs !! i = Some x ->
  imageHTML xs !! i
  = Some (mk_page (dataUri x)
            (fit_image (width (source x)) (height (source x)))
            (bool_decide (i < length xs - 1))).
Proof.
  intros Hx.
  unfold imageHTML. rewrite list_lookup_imap, Hx. simpl. f_equal. f_equal.
  destruct (Z.ltb_spec (Z.of_nat i) (Z.of_nat (length xs) - 1)).
  - symmetry. apply bool_decide_eq_true_2. lia.
  - symmetry. apply bool_decide_eq_false_2. lia.
Qed.

(** The MIME type of a data URI is [image/png] exactly when the lower-cased
    uri contains "png" anywhere (the ".png" test adds nothing), so a JPEG
    stored under a folder named "pngs" is labelled [image/png]. *)
Theorem mimeType_png_anywhere (u : string) :
  mimeType_of u
  = (if includes (to_lower u) "png" then "image/png" else "image/jpeg")%string
  /\ mimeType_of "file:///pngs/photo.jpg" = "image/png"%string.
Proof.
  split; [|reflexivity].
  unfold mimeType_of.
  destruct (includes (to_lower u) ".png") eqn:E; simpl; [|reflexivity].
  rewrite (includes_drop_head _ _ _ E). reflexivity.
Qed.

(** When every read of an encoding run succeeds, in whatever order they
    settle, the run moves to rendering with one page per image of its
    snapshot, in order: page [i] shows image [i]'s bytes as a
    [data:<mime>;base64,] URI, is fitted from that image's size and breaks
    after itself unless it is the last; nothing else of the state changes. *)
Theorem reads_ok_render_pages (st : state) (r : nat) (ru : run)
    (ord : list nat) (reads : nat -> read_result) (bytes : nat -> string) :
  runs st !! r = Some ru -> stage ru = Encoding ->
  (forall i, i < length (snapshot ru) -> reads i = ReadOk (bytes i)) ->
  exists pages,
    runs (step st (ReadsSettled r ord reads)) !! r
      = Some (mk_run (snapshot ru) (Rendering pages))
    /\ images (step st (ReadsSettled r ord reads)) = images st
    /\ isGenerating (step st (ReadsSettled r ord reads)) = isGenerating st
    /\ alerts (step st (ReadsSettled r ord reads)) = alerts st
    /\ length pages = length (snapshot ru)
    /\ (forall i img, snapshot ru !! i = Some img ->
          pages !! i
          = Some (mk_page ("data:" ++ mimeType_of (uri img) ++ ";base64," ++ bytes i)%string
                    (fit_image (width img) (height img))
                    (bool_decide (i < length (snapshot ru) - 1)))).
Proof.
  intros Hru Hst Hok.
  assert (Hlt : r < length (runs st)) by (eapply lookup_lt_Some; exact Hru).
  set (g := fun i img => mk_image_with_data img
                ("data:" ++ mimeType_of (uri img) ++ ";base64," ++ bytes i)%string).
  assert (Hfg : forall i x, snapshot ru !! i = Some x ->
                  read_image reads i x = inr (g i x)).
  { intros i x Hx. unfold read_image. rewrite Hok by (eapply lookup_lt_Some; exact Hx).
    reflexivity. }
  destruct (reads_all_ok reads (snapshot ru) (fun i => i)) as [Hno _].
  { intros i Hi. exists (bytes i). apply Hok, Hi. }
  exists (imageHTML (imap g (snapshot ru))).
  simpl. rewrite Hru, Hst. unfold promise_all.
  rewrite first_rejection_none by exact Hno.
  rewrite (values_all_inr _ g _ Hfg).
  split; [apply list_lookup_insert_eq; exact Hlt|].
  split; [reflexivity|]. split; [reflexivity|]. split; [reflexivity|].
  split; [unfold imageHTML; rewrite !length_imap; reflexivity|].
  intros i img Himg.
  rewrite (imageHTML_lookup _ i (g i img)).
  - rewrite length_imap. reflexivity.
  - rewrite list_lookup_imap, Himg. reflexivity.
Qed.

Lemma reads_ok_render_pages_witness :
  exists pages,
    runs (step (Samples.generating [Samples.photo; Samples.flat])
               (ReadsSettled 0 [1; 0] (fun _ => ReadOk "QUFB"))) !! 0
      = Some (mk_run [Samples.photo; Samples.flat] (Rendering pages))
    /\ images (step (Samples.generating [Samples.photo; Samples.flat])
                    (ReadsSettled 0 [1; 0] (fun _ => ReadOk "QUFB")))
       = images (Samples.generating [Samples.photo; Samples.flat])
    /\ isGenerating (step (Samples.generating [Samples.photo; Samples.flat])
                          (ReadsSettled 0 [1; 0] (fun _ => ReadOk "QUFB")))
       = isGenerating (Samples.generating [Samples.photo; Samples.flat])
    /\ alerts (step (Samples.generating [Samples.photo; Samples.flat])
                    (ReadsSettled 0 [1; 0] (fun _ => ReadOk "QUFB")))
       = alerts (Samples.generating [Samples.photo; Samples.flat])
    /\ length pages = length [Samples.photo; Samples.flat]
    /\ (forall i img, [Samples.photo; Samples.flat] !! i = Some img ->
          pages !! i
          = Some (mk_page ("data:" ++ mimeType_of (uri img) ++ ";base64," ++ "QUFB")%string
                    (fit_image (width img) (height img))
                    (bool_decide (i < length [Samples.photo; Samples.flat] - 1)))).
Proof.
  apply (reads_ok_render_pages (Samples.generating [Samples.photo; Samples.flat]) 0
           (mk_run [Samples.photo; Samples.flat] Encoding) [1; 0]
           (fun _ => ReadOk "QUFB") (fun _ => "QUFB"%string)).
  - reflexivity.
  - reflexivity.
  - intros i _. reflexivity.
Defined.

(* ------------------------------------------------------------------ *)
(** ** Further properties: the fitter *)

Section FitterMore.
Local Open Scope Q_scope.

Lemma Qle_bool_compat (a b c : Q) : a == b -> Qle_bool a c = Qle_bool b c.
Proof.
  intros E.
  destruct (Qle_bool a c) eqn:E1, (Qle_bool b c) eqn:E2; try reflexivity.
  - apply Qle_bool_iff in E1. rewrite E in E1.
    apply Qle_bool_iff in E1. rewrite E1 in E2. discriminate E2.
  - apply Qle_bool_iff in E2. rewrite <- E in E2.
    apply Qle_bool_iff in E2. rewrite E2 in E1. discriminate E1.
Qed.

(** Which side of the page an image fills: an image at least as wide, in
    proportion, as the page ([794 h <= 1123 w]) takes the full width 794
    with no left margin and height [794 h / w]; a taller one takes the full
    height 1123 with no top margin and a width [1123 w / h] below 794. *)
Theorem fit_image_orientation (w h : Q) : 0 < w -> 0 < h ->
  (794 * h <= 1123 * w ->
     exists rh, fit_image (Fin w) (Fin h)
                = mk_geometry (Fin 794) (Fin rh) (Fin ((794 - 794) / 2)) (Fin ((1123 - rh) / 2))
                /\ rh == 794 * h / w)
  /\ (1123 * w < 794 * h ->
     exists rw, fit_image (Fin w) (Fin h)
                = mk_geometry (Fin rw) (Fin 1123) (Fin ((794 - rw) / 2)) (Fin ((1123 - 1123) / 2))
                /\ rw == 1123 * w / h /\ rw < 794).
Proof.
  intros Hw Hh.
  rewrite (fit_image_pos w h Hw Hh).
  assert (Hx : 794 / (w / h) * w == 794 * h)
    by (field; split; intros E; rewrite E in *; discriminate).
  assert (Hle : Qle_bool (794 / (w / h)) 1123 = true <-> 794 * h <= 1123 * w).
  { rewrite Qle_bool_iff, <- Hx. split; intros H.
    - apply Qmult_le_r; [exact Hw | exact H].
    - apply (Qmult_le_r _ _ w Hw). exact H. }
  split.
  - intros H. apply Hle in H. rewrite H. simpl.
    exists (794 / (w / h)). split; [reflexivity|].
    field. split; intros E; rewrite E in *; discriminate.
  - intros H. destruct (Qle_bool (794 / (w / h)) 1123) eqn:E.
    + pose proof (proj1 Hle eq_refl). lra.
    + simpl. exists (1123 * (w / h)). split; [reflexivity|]. split.
      * field. intros E'; rewrite E' in *; discriminate.
      * assert (Hy : 1123 * (w / h) * h == 1123 * w)
          by (field; intros E'; rewrite E' in *; discriminate).
        apply (Qmult_lt_r _ _ h Hh). rewrite Hy. lra.
Qed.

Lemma fit_image_orientation_witness :
  (0 < 800 /\ 0 < 600)
  /\ ((794 * 600 <= 1123 * 800 ->
       exists rh, fit_image (Fin 800) (Fin 600)
                  = mk_geometry (Fin 794) (Fin rh) (Fin ((794 - 794) / 2)) (Fin ((1123 - rh) / 2))
                  /\ rh == 794 * 600 / 800)
      /\ (1123 * 800 < 794 * 600 ->
       exists rw, fit_image (Fin 800) (Fin 600)
                  = mk_geometry (Fin rw) (Fin 1123) (Fin ((794 - rw) / 2)) (Fin ((1123 - 1123) / 2))
                  /\ rw == 1123 * 800 / 600 /\ rw < 794)).
Proof.
  split; [split; reflexivity|].
  apply fit_image_orientation; reflexivity.
Defined.

(** The layout of a page depends only on the aspect ratio of its image:
    two images of positive size with the same ratio (for instance a photo
    and its thumbnail) get equal size and offsets. *)
Theorem fit_image_ratio_only (w h w' h' : Q) :
  0 < w -> 0 < h -> 0 < w' -> 0 < h' -> w * h' == w' * h ->
  geometry_eqv (fit_image (Fin w) (Fin h)) (fit_image (Fin w') (Fin h')).
Proof.
  intros Hw Hh Hw' Hh' Hwh.
  rewrite (fit_image_pos w h Hw Hh), (fit_image_pos w' h' Hw' Hh').
  assert (Hr : w / h == w' / h').
  { transitivity (w * h' / (h * h')).
    - field. split; intros E; rewrite E in *; discriminate.
    - rewrite Hwh. field. split; intros E; rewrite E in *; discriminate. }
  rewrite (Qle_bool_compat (794 / (w / h)) (794 / (w' / h')) 1123)
    by (rewrite Hr; reflexivity).
  destruct (Qle_bool (794 / (w' / h')) 1123); simpl;
    unfold geometry_eqv; simpl; repeat split; rewrite ?Hr; reflexivity.
Qed.

Lemma fit_image_ratio_only_witness :
  (0 < 800 /\ 0 < 600 /\ 0 < 200 /\ 0 < 150 /\ 800 * 150 == 200 * 600)
  /\ geometry_eqv (fit_image (Fin 800) (Fin 600)) (fit_image (Fin 200) (Fin 150)).
Proof.
  split; [repeat split; reflexivity|].
  apply fit_image_ratio_only; reflexivity.
Defined.

End FitterMore.

(* ------------------------------------------------------------------ *)
(** ** Further properties: removal *)

Section RemoveMore.
Context {A : Type} (id_of : A -> string).

(** An entry survives [removeImage] exactly when it was there and its id is
    not the removed one; removing an id twice is removing it once, and two
    removals can be done in either order. *)
Theorem removeImage_members_compose (l : list A) (k k' : string) :
  (forall x, In x (removeImage id_of l k) <-> In x l /\ id_of x <> k)
  /\ removeImage id_of (removeImage id_of l k) k = removeImage id_of l k
  /\ removeImage id_of (removeImage id_of l k) k'
     = removeImage id_of (removeImage id_of l k') k.
Proof.
  unfold removeImage. split; [|split].
  - intros x. rewrite filter_In, negb_true_iff, String.eqb_neq. reflexivity.
  - induction l as [|x l IH]; [reflexivity|]. simpl.
    destruct (String.eqb (id_of x) k) eqn:E; simpl; rewrite ?E; simpl; rewrite ?IH; reflexivity.
  - induction l as [|x l IH]; [reflexivity|]. simpl.
    destruct (String.eqb (id_of x) k) eqn:E1, (String.eqb (id_of x) k') eqn:E2;
      simpl; rewrite ?E1, ?E2; simpl; rewrite ?IH; reflexivity.
Qed.

End RemoveMore.

(* ------------------------------------------------------------------ *)
(** ** Further properties: saving and the final alerts *)

(** How a generation that printed its PDF ends, by platform.  On Android
    and iOS the save helpers catch their own failures, so the run always
    ends with the "Success" alert, preceded at most by one save error; on
    the web a failed share escapes into the [catch]: the only alert is
    "Failed to generate PDF" and no success is reported; on the web
    without sharing nothing is saved and success is still reported. *)
Theorem finish_generation_by_platform :
  (forall os available res, os <> Web ->
     exists saved,
       finish_generation os available res
       = (saved ++ [mk_alert "Success" "PDF generated successfully!"])%list
       /\ length saved <= 1
       /\ Forall (fun a => title a = "Error"%string) saved)
  /\ (forall m, finish_generation Web true (ShareError m)
                = [mk_alert "Error" ("Failed to generate PDF: " ++ m)])
  /\ (forall res, finish_generation Web false res
                  = [mk_alert "Success" "PDF generated successfully!"]).
Proof.
  split; [|split; [intros m; reflexivity | intros res; reflexivity]].
  intros os available res Hos.
  destruct os; [| | contradiction];
    (destruct available; [destruct res as [|m]|]);
    unfold finish_generation; simpl;
    first [ exists []; split; [reflexivity | split; [simpl; lia | constructor]]
          | eexists [_]; split; [reflexivity | split; [simpl; lia | repeat constructor]] ].
Qed.

(* ------------------------------------------------------------------ *)
(** ** Further properties: runs and the busy flag *)

Section RunsMore.

Lemma busy_inv_insert (rs : list run) (r r0 : nat) (ru0 : run) (ru' : run) :
  rs !! r0 = Some ru0 -> in_flight ru0 = true -> in_flight ru' = true ->
  exists r1 ru1, <[r := ru']> rs !! r1 = Some ru1 /\ in_flight ru1 = true.
Proof.
  intros H0 Hf0 Hf'. destruct (decide (r = r0)) as [<-|Hne].
  - exists r, ru'. split; [|exact Hf'].
    apply list_lookup_insert_eq. eapply lookup_lt_Some. exact H0.
  - exists r0, ru0. split; [|exact Hf0]. rewrite list_lookup_insert_ne by exact Hne. exact H0.
Qed.

Lemma busy_inv_step (st : state) (ev : event) :
  (isGenerating st = true -> exists r ru, runs st !! r = Some ru /\ in_flight ru = true) ->
  isGenerating (step st ev) = true ->
  exists r ru, runs (step st ev) !! r = Some ru /\ in_flight ru = true.
Proof.
  intros Hinv.
  destruct ev as [|assets|k|r ord reads|r res|r err]; simpl.
  - destruct (isGenerating st) eqn:Hg; [rewrite Hg; exact Hinv|].
    unfold generatePDF. destruct (Nat.eqb (length (images st)) 0); simpl;
      [rewrite Hg; intros H; discriminate H|].
    intros _. exists (length (runs st)), (mk_run (images st) Encoding).
    split; [apply list_lookup_middle; reflexivity | reflexivity].
  - destruct (isGenerating st) eqn:Hg; simpl; rewrite ?Hg; exact Hinv.
  - exact Hinv.
  - destruct (runs st !! r) as [ru|] eqn:Hr; [|exact Hinv].
    destruct (stage ru); try exact Hinv.
    destruct (promise_all _ ord); simpl; [discriminate|].
    intros Hg. destruct (Hinv Hg) as (r0 & ru0 & H0 & Hf0).
    eapply busy_inv_insert; [exact H0 | exact Hf0 | reflexivity].
  - destruct (runs st !! r) as [ru|] eqn:Hr; [|exact Hinv].
    destruct (stage ru); destruct res; try exact Hinv; simpl; [discriminate|].
    intros Hg. destruct (Hinv Hg) as (r0 & ru0 & H0 & Hf0).
    eapply busy_inv_insert; [exact H0 | exact Hf0 | reflexivity].
  - destruct (runs st !! r) as [ru|] eqn:Hr; [|exact Hinv].
    destruct (stage ru); try exact Hinv. simpl. discriminate.
Qed.

Lemma reachable_busy_inv (st : state) :
  reachable st ->
  isGenerating st = true -> exists r ru, runs st !! r = Some ru /\ in_flight ru = true.
Proof.
  intros Hr. induction Hr as [|st' ev _ IH].
  - intros H. discriminate H.
  - apply busy_inv_step. exact IH.
Qed.

Lemma stage_progress_insert (rs : list run) (r r' : nat) (ru ru' : run) (s : run_stage) :
  rs !! r = Some ru -> rs !! r' = Some ru' -> stage_rank (stage ru') <= stage_rank s ->
  exists ru2, <[r' := mk_run (snapshot ru') s]> rs !! r = Some ru2
              /\ snapshot ru2 = snapshot ru /\ stage_rank (stage ru) <= stage_rank (stage ru2).
Proof.
  intros Hr Hr' Hs. destruct (decide (r' = r)) as [<-|Hne].
  - rewrite Hr in Hr'. injection Hr' as <-.
    exists (mk_run (snapshot ru) s). split; [|split; [reflexivity | exact Hs]].
    apply list_lookup_insert_eq. eapply lookup_lt_Some. exact Hr.
  - exists ru. rewrite list_lookup_insert_ne by exact Hne.
    split; [exact Hr | split; [reflexivity | lia]].
Qed.

End RunsMore.

(** In every reachable state the busy flag is set exactly when some run
    is in flight, and at most one run is in flight: the app never runs
    two generations at once, and it never stays busy with no run going. *)
Theorem reachable_busy_iff_in_flight (st : state) :
  reachable st ->
  (isGenerating st = true <-> exists r ru, runs st !! r = Some ru /\ in_flight ru = true)
  /\ (forall r1 r2 ru1 ru2, runs st !! r1 = Some ru1 -> runs st !! r2 = Some ru2 ->
        in_flight ru1 = true -> in_flight ru2 = true -> r1 = r2).
Proof.
  intros Hr. destruct (reachable_flight_inv st Hr) as [Hflag Huniq].
  split; [split|exact Huniq].
  - apply reachable_busy_inv, Hr.
  - intros (r & ru & H & Hf). exact (Hflag r ru H Hf).
Qed.

Lemma reachable_busy_iff_in_flight_witness :
  reachable (step (step initial_state (PickImages [Samples.photo])) PressGenerate)
  /\ (isGenerating (step (step initial_state (PickImages [Samples.photo])) PressGenerate) = true
      <-> exists r ru, runs (step (step initial_state (PickImages [Samples.photo])) PressGenerate) !! r
                       = Some ru /\ in_flight ru = true)
  /\ (forall r1 r2 ru1 ru2,
        runs (step (step initial_state (PickImages [Samples.photo])) PressGenerate) !! r1 = Some ru1 ->
        runs (step (step initial_state (PickImages [Samples.photo])) PressGenerate) !! r2 = Some ru2 ->
        in_flight ru1 = true -> in_flight ru2 = true -> r1 = r2).
Proof.
  assert (Hr : reachable (step (step initial_state (PickImages [Samples.photo])) PressGenerate))
    by (apply reachable_step, reachable_step, reachable_init).
  split; [exact Hr|].
  apply reachable_busy_iff_in_flight. exact Hr.
Defined.

(** A run, once started, is never dropped and never forgets its snapshot:
    after any event it is still at the same position with the same images,
    and its stage never goes back ([Encoding], [Rendering], [Saving], then
    an end).  Editing the image list while a PDF is being made does not
    change what the PDF shows. *)
Theorem run_kept_and_advances (st : state) (ev : event) (r : nat) (ru : run) :
  runs st !! r = Some ru ->
  exists ru', runs (step st ev) !! r = Some ru'
              /\ snapshot ru' = snapshot ru
              /\ stage_rank (stage ru) <= stage_rank (stage ru').
Proof.
  intros Hr.
  assert (Hlt : r < length (runs st)) by (eapply lookup_lt_Some; exact Hr).
  destruct ev as [| | |r' ord reads|r' res|r' err]; simpl;
    [exists ru; split; [|split; [reflexivity | lia]] ..| | |].
  - destruct (isGenerating st); [exact Hr|].
    unfold generatePDF. destruct (Nat.eqb (length (images st)) 0); simpl;
      [exact Hr|]. rewrite lookup_app_l by exact Hlt. exact Hr.
  - destruct (isGenerating st); exact Hr.
  - exact Hr.
  - destruct (runs st !! r') as [ru'|] eqn:Hr';
      [|exists ru; split; [exact Hr | split; [reflexivity | lia]]].
    destruct (stage ru') eqn:Hs; try (exists ru; split; [exact Hr | split; [reflexivity | lia]]).
    destruct (promise_all _ ord); simpl;
      (eapply stage_progress_insert; [exact Hr | exact Hr' | rewrite Hs; simpl; lia]).
  - destruct (runs st !! r') as [ru'|] eqn:Hr';
      [|exists ru; split; [exact Hr | split; [reflexivity | lia]]].
    destruct (stage ru') eqn:Hs; destruct res;
      try (exists ru; split; [exact Hr | split; [reflexivity | lia]]); simpl;
      (eapply stage_progress_insert; [exact Hr | exact Hr' | rewrite Hs; simpl; lia]).
  - destruct (runs st !! r') as [ru'|] eqn:Hr';
      [|exists ru; split; [exact Hr | split; [reflexivity | lia]]].
    destruct (stage ru') eqn:Hs; try (exists ru; split; [exact Hr | split; [reflexivity | lia]]).
    simpl. eapply stage_progress_insert; [exact Hr | exact Hr' | rewrite Hs; simpl; lia].
Qed.

Lemma run_kept_and_advances_witness :
  runs (Samples.generating [Samples.photo]) !! 0 = Some (mk_run [Samples.photo] Encoding)
  /\ exists ru', runs (step (Samples.generating [Samples.photo]) (RemoveImage (id Samples.photo))) !! 0
                 = Some ru'
                 /\ snapshot ru' = snapshot (mk_run [Samples.photo] Encoding)
                 /\ stage_rank (stage (mk_run [Samples.photo] Encoding)) <= stage_rank (stage ru').
Proof.
  assert (H : runs (Samples.generating [Samples.photo]) !! 0 = Some (mk_run [Samples.photo] Encoding))
    by reflexivity.
  split; [exact H|].
  apply run_kept_and_advances. exact H.
Defined.

(* ------------------------------------------------------------------ *)
(** ** Further properties: moves outside the list *)

Section MovesOutOfRange.
Context {A : Type} (undefined : A).

(** Out of range a move swaps nothing and never fails: as in JavaScript,
    the writes past the end grow the array, the new cells holding
    [undefined].  [moveImageDown] at an index [i >= length] gives the list
    padded to length [i + 2]; [moveImageUp] at [i > length] pads it to
    length [i + 1]. *)
Theorem moves_past_the_end (l : list A) (i : nat) : length l <= i ->
  moveImageDown undefined l i = l ++ replicate (i - length l + 2) undefined
  /\ (length l < i -> moveImageUp undefined l i = l ++ replicate (i - length l + 1) undefined).
Proof.
  intros Hi. split.
  - unfold moveImageDown.
    rewrite (proj2 (Z.eqb_neq _ _)) by lia.
    unfold array_get. rewrite !lookup_ge_None_2 by lia. simpl.
    unfold array_set.
    destruct (decide (i < length l)) as [H|_]; [lia|].
    rewrite length_app, length_app, length_replicate. simpl.
    destruct (decide (i + 1 < length l + (i - length l + 1))) as [H|_]; [lia|].
    replace (i + 1 - (length l + (i - length l + 1))) with 0 by lia. simpl.
    rewrite <- app_assoc. f_equal. rewrite replicate_add. simpl.
    rewrite <- app_assoc. reflexivity.
  - intros Hlt. unfold moveImageUp.
    destruct (Nat.eqb_spec i 0) as [->|_]; [lia|].
    unfold array_get. rewrite !lookup_ge_None_2 by lia. simpl.
    unfold array_set.
    destruct (decide (i - 1 < length l)) as [H|_]; [lia|].
    rewrite length_app, length_app, length_replicate. simpl.
    destruct (decide (i < length l + (i - 1 - length l + 1))) as [H|_]; [lia|].
    replace (i - (length l + (i - 1 - length l + 1))) with 0 by lia. simpl.
    rewrite <- app_assoc. f_equal.
    replace (i - length l + 1) with ((i - 1 - length l) + 2) by lia.
    rewrite replicate_add. simpl. rewrite <- app_assoc. reflexivity.
Qed.

End MovesOutOfRange.

Lemma moves_past_the_end_witness :
  length [7] <= 2
  /\ (moveImageDown 0 [7] 2 = [7] ++ replicate (2 - length [7] + 2) 0
      /\ (length [7] < 2 -> moveImageUp 0 [7] 2 = [7] ++ replicate (2 - length [7] + 1) 0)).
Proof.
  split; [simpl; lia|].
  apply moves_past_the_end. simpl. lia.
Defined.
